(** * apienvelope: error serialization, status resolution and pagination input

    A shallow embedding of the TypeScript sources
    - [utils/errorSerializer.ts]  ([maskSensitiveFields], [safeSerializeDetails],
      [serializeError]),
    - [utils/statusCodeMapper.ts] ([StatusCodeMapper]),
    - [errors/ApiError.ts], [errors/predefined.ts],
    - [utils/validators.ts]       ([validatePaginationInput]),
    - [core/PaginationHelper.ts]  ([validateCursor], [extractCursorFromRequest]),
    followed by the properties of these functions. *)

From Stdlib Require Import ZArith QArith Qround String Ascii List Bool Lia.
From stdpp Require Import base gmap strings list.

Set Warnings "-register-all".
Local Open Scope string_scope.
Local Open Scope list_scope.

(** ** JavaScript data *)

Module JS.

(** Strings are sequences of 8-bit characters; [toLowerCase] and [toUpperCase]
    are the case mappings of [String.prototype] on the letters A-Z and a-z. *)

Definition lower_char (c : ascii) : ascii :=
  let n := nat_of_ascii c in
  if (65 <=? n)%nat && (n <=? 90)%nat then ascii_of_nat (n + 32) else c.

Definition upper_char (c : ascii) : ascii :=
  let n := nat_of_ascii c in
  if (97 <=? n)%nat && (n <=? 122)%nat then ascii_of_nat (n - 32) else c.

Fixpoint toLowerCase (s : string) : string :=
  match s with
  | EmptyString => EmptyString
  | String c s' => String (lower_char c) (toLowerCase s')
  end.

Fixpoint toUpperCase (s : string) : string :=
  match s with
  | EmptyString => EmptyString
  | String c s' => String (upper_char c) (toUpperCase s')
  end.

(** [Array.prototype.includes] on an array of strings. *)
Definition includes (l : list string) (s : string) : bool :=
  existsb (String.eqb s) l.

(** Numbers: the IEEE special values and the finite numbers.  The functions
    modelled here only compare, floor, and take [max]/[min], which are exact on
    doubles, so a finite number is kept as the rational it denotes. *)
Inductive num :=
| NaN
| PosInf
| NegInf
| Fin (q : Q).

Definition int (z : Z) : num := Fin (inject_Z z).

(** Truthiness of a number: [0] and [NaN] are falsy. *)
Definition num_truthy (x : num) : bool :=
  match x with
  | NaN => false
  | Fin q => negb (Qeq_bool q 0)
  | _ => true
  end.

(** [a || b] on numbers. *)
Definition num_or (a b : num) : num := if num_truthy a then a else b.

Definition Math_floor (x : num) : num :=
  match x with
  | Fin q => int (Qfloor q)
  | _ => x
  end.

Definition Math_max (a b : num) : num :=
  match a, b with
  | NaN, _ | _, NaN => NaN
  | PosInf, _ | _, PosInf => PosInf
  | NegInf, y => y
  | x, NegInf => x
  | Fin p, Fin q => if Qle_bool p q then Fin q else Fin p
  end.

Definition Math_min (a b : num) : num :=
  match a, b with
  | NaN, _ | _, NaN => NaN
  | NegInf, _ | _, NegInf => NegInf
  | PosInf, y => y
  | x, PosInf => x
  | Fin p, Fin q => if Qle_bool p q then Fin p else Fin q
  end.

(** [Number(x)] for an optional numeric field: an absent field reads as
    [undefined], which converts to [NaN]. *)
Definition Number (x : option num) : num :=
  match x with
  | Some n => n
  | None => NaN
  end.

(** Objects of the caller live in a store and are named by their address:
    two references are the same object exactly when the addresses agree. *)
Abbreviation addr := nat.

(** A value held in a property or an array slot of the caller's objects. *)
Inductive jsval :=
| JUndefined
| JNull
| JBool (b : bool)
| JNum (n : num)
| JStr (s : string)
| JRef (a : addr).

(** The objects of the store.  [Obj] and [Err] list the own enumerable
    string-keyed properties in the order [Object.entries] yields them. *)
Inductive cell :=
| Obj (props : list (string * jsval))
| Arr (items : list jsval)
| Err (name message : string) (props : list (string * jsval)).

Abbreviation heap := (gmap nat cell).

(** A reference to an address that the store does not hold reads as an object
    without properties. *)
Definition cell_at (h : heap) (a : addr) : cell := default (Obj []) (h !! a).

(** Values the serializer handles: the caller's values, and the objects and
    arrays the serializer itself creates, which nothing else refers to. *)
Inductive value :=
| VUndefined
| VNull
| VBool (b : bool)
| VNum (n : num)
| VStr (s : string)
| VRef (a : addr)
| VObj (props : list (string * value))
| VArr (items : list value).

Definition lift (v : jsval) : value :=
  match v with
  | JUndefined => VUndefined
  | JNull => VNull
  | JBool b => VBool b
  | JNum n => VNum n
  | JStr s => VStr s
  | JRef a => VRef a
  end.

(** Reading and writing a property of a freshly built object.  [set_prop o k v]
    is the assignment [o[k] = v]: an existing property keeps its place and takes
    the new value, a new one is added at the end. *)
Section Props.
Context {A : Type}.

Fixpoint get_prop (o : list (string * A)) (k : string) : option A :=
  match o with
  | [] => None
  | (k', v) :: o' =>
      match get_prop o' k with
      | Some x => Some x
      | None => if String.eqb k' k then Some v else None
      end
  end.

Definition has_prop (o : list (string * A)) (k : string) : bool :=
  existsb (fun p => String.eqb (fst p) k) o.

Definition set_prop (o : list (string * A)) (k : string) (v : A) : list (string * A) :=
  if has_prop o k
  then map (fun p => if String.eqb (fst p) k then (fst p, v) else p) o
  else o ++ [(k, v)].

End Props.

(** Decimal spelling of an array index, as used for the keys of an array. *)
Definition digit_char (d : nat) : ascii := ascii_of_nat (48 + d).

Fixpoint index_key_fuel (fuel n : nat) (acc : string) : string :=
  match fuel with
  | O => acc
  | S fuel' =>
      let acc' := String (digit_char (n mod 10)) acc in
      if (n <? 10)%nat then acc' else index_key_fuel fuel' (n / 10) acc'
  end.

Definition index_key (n : nat) : string := index_key_fuel (S n) n "".

Definition indexed {A : Type} (xs : list A) : list (string * A) :=
  imap (fun i x => (index_key i, x)) xs.

(** [Object.entries] of an object of the store. *)
Definition cell_entries (c : cell) : list (string * jsval) :=
  match c with
  | Obj props => props
  | Arr items => indexed items
  | Err _ _ props => props
  end.

Fixpoint string_chars (s : string) : list value :=
  match s with
  | EmptyString => []
  | String c s' => VStr (String c EmptyString) :: string_chars s'
  end.

(** [Object.entries(v)] for a serializer value (only reached with objects;
    [null] and [undefined] are excluded by the callers). *)
Definition entries_of (h : heap) (v : value) : list (string * value) :=
  match v with
  | VObj props => props
  | VArr items => indexed items
  | VRef a => map (fun p => (fst p, lift (snd p))) (cell_entries (cell_at h a))
  | VStr s => indexed (string_chars s)
  | _ => []
  end.

Definition truthy (v : value) : bool :=
  match v with
  | VUndefined | VNull => false
  | VBool b => b
  | VNum n => num_truthy n
  | VStr s => negb (String.eqb s "")
  | VRef _ | VObj _ | VArr _ => true
  end.

(** [typeof v === 'object'] ([null] included, as in JavaScript). *)
Definition typeof_object (v : value) : bool :=
  match v with
  | VNull | VRef _ | VObj _ | VArr _ => true
  | _ => false
  end.

Definition isArray (h : heap) (v : value) : bool :=
  match v with
  | VArr _ => true
  | VRef a => match cell_at h a with Arr _ => true | _ => false end
  | _ => false
  end.

(** Property read [v.k] (own properties, and [name]/[message] of an Error). *)
Definition get_property (h : heap) (v : value) (k : string) : value :=
  match get_prop (entries_of h v) k with
  | Some x => x
  | None =>
      match v with
      | VRef a =>
          match cell_at h a with
          | Err name message _ =>
              if String.eqb k "name" then VStr name
              else if String.eqb k "message" then VStr message
              else VUndefined
          | _ => VUndefined
          end
      | _ => VUndefined
      end
  end.

(** Outcome of a call that may throw. *)
Inductive outcome (A : Type) :=
| Returned (a : A)
| Thrown.
Arguments Returned {A} a.
Arguments Thrown {A}.

End JS.

(** ** Error classes and error objects ([errors/ApiError.ts], [errors/predefined.ts]) *)

Module Errors.
Import JS.

(** Classes deriving from [ApiError], and the other error classes.  A user
    class names its superclass. *)
Inductive ApiClass :=
| ApiError
| ValidationError
| NotFoundError
| UnauthorizedError
| ForbiddenError
| ConflictError
| InternalServerError
| BadRequestError
| RateLimitError
| ServiceUnavailableError
| UnprocessableEntityError
| ApiSubclass (id : nat) (super : ApiClass).

Inductive PlainClass :=
| Error
| PlainSubclass (id : nat) (super : PlainClass).

Inductive ErrorConstructor :=
| Plain (c : PlainClass)
| Api (c : ApiClass).

#[global] Instance ApiClass_eq_dec : EqDecision ApiClass.
Proof. solve_decision. Defined.
#[global] Instance PlainClass_eq_dec : EqDecision PlainClass.
Proof. solve_decision. Defined.
#[global] Instance ErrorConstructor_eq_dec : EqDecision ErrorConstructor.
Proof. solve_decision. Defined.

(** [c] is [d] or derives from it. *)
Fixpoint api_extends (c d : ApiClass) : bool :=
  if decide (c = d) then true
  else match c with
       | ApiError => false
       | ApiSubclass _ super => api_extends super d
       | _ => bool_decide (d = ApiError)
       end.

Fixpoint plain_extends (c d : PlainClass) : bool :=
  if decide (c = d) then true
  else match c with
       | Error => false
       | PlainSubclass _ super => plain_extends super d
       end.

Definition FieldErrors := list (string * list string).
Definition ErrorContext := list (string * jsval).

(** The fields an [ApiError] carries besides [message] and [stack].  Its
    [name], [timestamp] and [cause] play no part in the functions below and
    are left out. *)
Record ApiErrorData := {
  code : string;
  statusCode : num;
  details : option addr;
  fields : option FieldErrors;
  context : option ErrorContext;
  isOperational : bool
}.

Inductive error :=
| PlainErrorObj (cls : PlainClass) (message : string) (stack : option string)
| ApiErrorObj (cls : ApiClass) (message : string) (stack : option string)
              (data : ApiErrorData).

Definition message_of (e : error) : string :=
  match e with
  | PlainErrorObj _ m _ => m
  | ApiErrorObj _ m _ _ => m
  end.

(** [e instanceof C]: [ApiError] itself extends [Error]. *)
Definition instanceof (e : error) (C : ErrorConstructor) : bool :=
  match e, C with
  | PlainErrorObj c _ _, Plain d => plain_extends c d
  | PlainErrorObj _ _ _, Api _ => false
  | ApiErrorObj _ _ _ _, Plain d => bool_decide (d = Error)
  | ApiErrorObj c _ _ _, Api d => api_extends c d
  end.

Record ApiErrorOptions := {
  opt_code : option string;
  opt_statusCode : option num;
  opt_details : option addr;
  opt_fields : option FieldErrors;
  opt_context : option ErrorContext;
  opt_isOperational : option bool
}.

Definition no_options : ApiErrorOptions :=
  {| opt_code := None; opt_statusCode := None; opt_details := None;
     opt_fields := None; opt_context := None; opt_isOperational := None |}.

(** [s || fallback] on an optional string. *)
Definition string_or (s : option string) (fallback : string) : string :=
  match s with
  | Some x => if String.eqb x "" then fallback else x
  | None => fallback
  end.

(** The constructor of [ApiError]; [cls] is the class being instantiated and
    [stack] the captured stack trace. *)
Definition ApiError_new (cls : ApiClass) (stack : option string)
    (message : string) (options : ApiErrorOptions) : error :=
  ApiErrorObj cls message stack
    {| code := string_or (opt_code options) "INTERNAL_ERROR";
       statusCode := num_or (Number (opt_statusCode options)) (int 500);
       details := opt_details options;
       fields := opt_fields options;
       context := opt_context options;
       isOperational := default true (opt_isOperational options) |}.

(** [{ ...a, ...b }] on two optional contexts. *)
Definition spread_context (a : option ErrorContext) (b : ErrorContext) : ErrorContext :=
  fold_left (fun acc p => set_prop acc (fst p) (snd p)) b (default [] a).

(** [withContext]: a new plain [ApiError] carrying the fields of [this]. *)
Definition withContext (this : error) (stack : option string)
    (ctx : ErrorContext) : option error :=
  match this with
  | ApiErrorObj _ message _ d =>
      Some (ApiError_new ApiError stack message
              {| opt_code := Some (code d);
                 opt_statusCode := Some (statusCode d);
                 opt_details := details d;
                 opt_fields := fields d;
                 opt_context := Some (spread_context (context d) ctx);
                 opt_isOperational := Some (isOperational d) |})
  | PlainErrorObj _ _ _ => None
  end.

(** The predefined subclasses fix [code] and [statusCode] after spreading the
    caller's options. *)
Definition with_code_status (options : ApiErrorOptions) (c : string) (s : Z)
    : ApiErrorOptions :=
  {| opt_code := Some c; opt_statusCode := Some (int s);
     opt_details := opt_details options; opt_fields := opt_fields options;
     opt_context := opt_context options;
     opt_isOperational := opt_isOperational options |}.

Definition ValidationError_new stack message (flds : option FieldErrors) options :=
  let o := with_code_status options "VALIDATION_ERROR" 400 in
  ApiError_new ValidationError stack message
    {| opt_code := opt_code o; opt_statusCode := opt_statusCode o;
       opt_details := opt_details o; opt_fields := flds;
       opt_context := opt_context o; opt_isOperational := opt_isOperational o |}.

Definition NotFoundError_new stack message options :=
  ApiError_new NotFoundError stack message (with_code_status options "NOT_FOUND" 404).
Definition UnauthorizedError_new stack message options :=
  ApiError_new UnauthorizedError stack message (with_code_status options "UNAUTHORIZED" 401).
Definition ForbiddenError_new stack message options :=
  ApiError_new ForbiddenError stack message (with_code_status options "FORBIDDEN" 403).
Definition ConflictError_new stack message options :=
  ApiError_new ConflictError stack message (with_code_status options "CONFLICT" 409).
Definition InternalServerError_new stack message options :=
  let o := with_code_status options "INTERNAL_ERROR" 500 in
  ApiError_new InternalServerError stack message
    {| opt_code := opt_code o; opt_statusCode := opt_statusCode o;
       opt_details := opt_details o; opt_fields := opt_fields o;
       opt_context := opt_context o; opt_isOperational := Some false |}.
Definition BadRequestError_new stack message options :=
  ApiError_new BadRequestError stack message (with_code_status options "BAD_REQUEST" 400).
Definition ServiceUnavailableError_new stack message options :=
  ApiError_new ServiceUnavailableError stack message
    (with_code_status options "SERVICE_UNAVAILABLE" 503).
Definition UnprocessableEntityError_new stack message options :=
  ApiError_new UnprocessableEntityError stack message
    (with_code_status options "UNPROCESSABLE_ENTITY" 422).

(** [RateLimitError] builds its own [details] object [{ retryAfter }] when
    [retryAfter] is truthy; the object is allocated in the store. *)
Definition RateLimitError_new (h : heap) stack message (retryAfter : option num)
    options : error * heap :=
  let o := with_code_status options "RATE_LIMIT_EXCEEDED" 429 in
  let mk d :=
    ApiError_new RateLimitError stack message
      {| opt_code := opt_code o; opt_statusCode := opt_statusCode o;
         opt_details := d; opt_fields := opt_fields o;
         opt_context := opt_context o; opt_isOperational := opt_isOperational o |} in
  if num_truthy (Number retryAfter) then
    let a := fresh (dom h) in
    (mk (Some a), <[a := Obj [("retryAfter", JNum (Number retryAfter))]]> h)
  else (mk None, h).

End Errors.

(** ** The error serializer ([utils/errorSerializer.ts]) *)

Module ErrorSerializer.
Import JS Errors.

Definition ErrorSerializer := error -> outcome value.

Record SerializationOptions := {
  includeStack : bool;
  maskSensitiveData : bool;
  sensitiveFields : list string;
  customSerializers : option (list (ErrorConstructor * ErrorSerializer))
}.

(** [Partial<SerializationOptions>]: every field may be left out. *)
Record PartialOptions := {
  p_includeStack : option bool;
  p_maskSensitiveData : option bool;
  p_sensitiveFields : option (list string);
  p_customSerializers : option (list (ErrorConstructor * ErrorSerializer))
}.

Definition defaultOptions : SerializationOptions :=
  {| includeStack := false;
     maskSensitiveData := true;
     sensitiveFields := ["password"; "token"; "secret"; "apiKey"; "authorization"];
     customSerializers := None |}.

(** [{ ...defaultOptions, ...options }] *)
Definition merge_options (options : PartialOptions) : SerializationOptions :=
  {| includeStack := default (includeStack defaultOptions) (p_includeStack options);
     maskSensitiveData :=
       default (maskSensitiveData defaultOptions) (p_maskSensitiveData options);
     sensitiveFields :=
       default (sensitiveFields defaultOptions) (p_sensitiveFields options);
     customSerializers :=
       match p_customSerializers options with
       | Some m => Some m
       | None => customSerializers defaultOptions
       end |}.

Definition is_pollution_key (key : string) : bool :=
  String.eqb key "__proto__" || String.eqb key "constructor"
  || String.eqb key "prototype".

Definition truncated_marker : value := VObj [("_truncated", VBool true)].
Definition circular_marker : value := VObj [("_circular", VBool true)].
Definition REDACTED : value := VStr "[REDACTED]".

(** [maskSensitiveFields].  The recursion is on the number of nesting levels
    still allowed, [levels = 11 - depth]: the guard [depth > 10] of the source
    is [levels = 0], and the call at [depth + 1] is the call at [levels - 1]. *)
Fixpoint maskSensitiveFields_at (levels : nat) (h : heap) (obj : value)
    (sensitiveFields : list string) : value :=
  match levels with
  | O => truncated_marker
  | S levels' =>
      let lowerSensitiveFields := map toLowerCase sensitiveFields in
      VObj
        (fold_left
           (fun masked '(key, value) =>
              if is_pollution_key key then masked
              else if includes lowerSensitiveFields (toLowerCase key) then
                set_prop masked key REDACTED
              else if truthy value && typeof_object value && negb (isArray h value) then
                set_prop masked key
                  (maskSensitiveFields_at levels' h value sensitiveFields)
              else set_prop masked key value)
           (entries_of h obj) [])
  end.

Definition maskSensitiveFields (h : heap) (obj : value)
    (sensitiveFields : list string) (depth : nat) : value :=
  maskSensitiveFields_at (11 - depth) h obj sensitiveFields.

(** [safeSerializeDetails], with the [WeakSet] of visited objects threaded
    through the traversal.  The recursion is on [levels = 11 - depth] as above. *)
Fixpoint safeSerializeDetails_at (levels : nat) (h : heap) (details : addr)
    (seen : gset nat) : value * gset nat :=
  match levels with
  | O => (truncated_marker, seen)
  | S levels' =>
      if bool_decide (details ∈ seen) then (circular_marker, seen)
      else
        let seen := {[details]} ∪ seen in
        let '(result, seen) :=
          fold_left
            (fun '(result, seen) '(key, value) =>
               if is_pollution_key key then (result, seen)
               else
                 match value with
                 | JNull | JUndefined => (set_prop result key (lift value), seen)
                 | JRef o =>
                     match cell_at h o with
                     | Err name message _ =>
                         (set_prop result key
                            (VObj [("name", VStr name); ("message", VStr message)]),
                          seen)
                     | Arr items =>
                         let '(items', seen') :=
                           fold_left
                             (fun '(out, seen) item =>
                                match item with
                                | JRef b =>
                                    let '(v, seen') :=
                                      safeSerializeDetails_at levels' h b seen in
                                    (out ++ [v], seen')
                                | _ => (out ++ [lift item], seen)
                                end)
                             (take 100 items) ([], seen) in
                         (set_prop result key (VArr items'), seen')
                     | Obj _ =>
                         let '(v, seen') := safeSerializeDetails_at levels' h o seen in
                         (set_prop result key v, seen')
                     end
                 | _ => (set_prop result key (lift value), seen)
                 end)
            (cell_entries (cell_at h details)) ([], seen) in
        (VObj result, seen)
  end.

Definition safeSerializeDetails (h : heap) (details : addr) (seen : gset nat)
    (depth : nat) : value * gset nat :=
  safeSerializeDetails_at (11 - depth) h details seen.

Record ErrorDetails := {
  ed_code : value;
  ed_message : value;
  ed_details : option value;
  ed_fields : option FieldErrors;
  ed_stack : option string
}.

(** [ApiError.serialize(includeStack)] *)
Record SerializedError := {
  se_code : string;
  se_message : string;
  se_statusCode : num;
  se_details : option addr;
  se_fields : option FieldErrors;
  se_context : option ErrorContext;
  se_stack : option string
}.

Definition nonempty (s : option string) : option string :=
  match s with
  | Some x => if String.eqb x "" then None else Some x
  | None => None
  end.

Definition serialize (message : string) (stack : option string) (d : ApiErrorData)
    (includeStack : bool) : SerializedError :=
  {| se_code := code d;
     se_message := message;
     se_statusCode := statusCode d;
     se_details := details d;
     se_fields := fields d;
     se_context := context d;
     se_stack := if includeStack then nonempty stack else None |}.

(** The loop over [opts.customSerializers]: the first class the error is an
    instance of decides. *)
Fixpoint first_serializer (e : error) (m : list (ErrorConstructor * ErrorSerializer))
    : option ErrorSerializer :=
  match m with
  | [] => None
  | (ErrorClass, serializer) :: m' =>
      if instanceof e ErrorClass then Some serializer else first_serializer e m'
  end.

Definition serializeError (h : heap) (e : error) (options : PartialOptions)
    : outcome ErrorDetails :=
  let opts := merge_options options in
  match first_serializer e (default [] (customSerializers opts)) with
  | Some serializer =>
      match serializer e with
      | Thrown => Thrown
      | Returned VUndefined | Returned VNull => Thrown
      | Returned customResult =>
          let c := get_property h customResult "code" in
          let m := get_property h customResult "message" in
          Returned
            {| ed_code := if truthy c then c else VStr "CUSTOM_ERROR";
               ed_message := if truthy m then m else VStr (message_of e);
               ed_details :=
                 Some (if maskSensitiveData opts
                       then maskSensitiveFields h customResult (sensitiveFields opts) 0
                       else customResult);
               ed_fields := None;
               ed_stack := None |}
      end
  | None =>
      match e with
      | ApiErrorObj _ message stack d =>
          let serialized := serialize message stack d (includeStack opts) in
          let details :=
            match se_details serialized with
            | Some a =>
                if maskSensitiveData opts then
                  Some (maskSensitiveFields h
                          (fst (safeSerializeDetails h a ∅ 0))
                          (sensitiveFields opts) 0)
                else Some (VRef a)
            | None => None
            end in
          Returned
            {| ed_code := VStr (se_code serialized);
               ed_message := VStr (se_message serialized);
               ed_details :=
                 match details with
                 | Some dv =>
                     if (0 <? length (entries_of h dv))%nat then Some dv else None
                 | None => None
                 end;
               ed_fields := se_fields serialized;
               ed_stack :=
                 if includeStack opts then se_stack serialized else None |}
      | PlainErrorObj _ message stack =>
          Returned
            {| ed_code := VStr "INTERNAL_ERROR";
               ed_message :=
                 VStr (if String.eqb message "" then "An unexpected error occurred"
                       else message);
               ed_fields := None;
               ed_details := None;
               ed_stack := if includeStack opts then nonempty stack else None |}
      end
  end.

End ErrorSerializer.

(** ** The status code mapper ([utils/statusCodeMapper.ts]) *)

Module StatusCodeMapper.
Import JS Errors.

(** A [Map<ErrorConstructor, number>] in insertion order. *)
Definition ErrorMap := list (ErrorConstructor * num).

Definition defaultErrorMappings : ErrorMap :=
  [ (Api ValidationError, int 400);
    (Api BadRequestError, int 400);
    (Api UnauthorizedError, int 401);
    (Api ForbiddenError, int 403);
    (Api NotFoundError, int 404);
    (Api ConflictError, int 409);
    (Api UnprocessableEntityError, int 422);
    (Api RateLimitError, int 429);
    (Api InternalServerError, int 500);
    (Api ServiceUnavailableError, int 503) ].

Definition methodStatusCodes : list (string * num) :=
  [ ("GET", int 200); ("POST", int 201); ("PUT", int 200); ("PATCH", int 200);
    ("DELETE", int 204); ("HEAD", int 200); ("OPTIONS", int 200) ].

Record StatusCodeMapper := { customMappings : ErrorMap }.

Definition StatusCodeMapper_new (customMappings : option ErrorMap) : StatusCodeMapper :=
  {| customMappings := default [] customMappings |}.

(** [for (const [ErrorClass, statusCode] of m) if (error instanceof ErrorClass)
    return statusCode] *)
Fixpoint first_mapping (e : error) (m : ErrorMap) : option num :=
  match m with
  | [] => None
  | (ErrorClass, statusCode) :: m' =>
      if instanceof e ErrorClass then Some statusCode else first_mapping e m'
  end.

(** The test [error instanceof ApiError] is the case [ApiErrorObj]: the errors
    of that case are the instances of [ApiError] and of its subclasses. *)
Definition getStatusCode (this : StatusCodeMapper) (e : error) : num :=
  match e with
  | ApiErrorObj _ _ _ d => statusCode d
  | PlainErrorObj _ _ _ =>
      match first_mapping e (customMappings this) with
      | Some statusCode => statusCode
      | None =>
          match first_mapping e defaultErrorMappings with
          | Some statusCode => statusCode
          | None => int 500
          end
      end
  end.

Definition getSuccessStatusCode (method : string) (hasData : bool) : num :=
  let upperMethod := toUpperCase method in
  if String.eqb upperMethod "DELETE" && negb hasData then int 204
  else num_or (Number (get_prop methodStatusCodes upperMethod)) (int 200).

(** [Map.prototype.set] and [Map.prototype.delete] on the custom mappings. *)
Definition addMapping (this : StatusCodeMapper) (ErrorClass : ErrorConstructor)
    (statusCode : num) : StatusCodeMapper :=
  let m := customMappings this in
  {| customMappings :=
       if existsb (fun p => bool_decide (fst p = ErrorClass)) m
       then map (fun p => if bool_decide (fst p = ErrorClass)
                          then (fst p, statusCode) else p) m
       else m ++ [(ErrorClass, statusCode)] |}.

Definition removeMapping (this : StatusCodeMapper) (ErrorClass : ErrorConstructor)
    : bool * StatusCodeMapper :=
  let m := customMappings this in
  (existsb (fun p => bool_decide (fst p = ErrorClass)) m,
   {| customMappings := filter (fun p => fst p <> ErrorClass) m |}).

End StatusCodeMapper.

(** ** Pagination input ([utils/validators.ts]) *)

Module Validators.
Import JS.

Record PaginationInput := { page : num; limit : num; total : num }.

(** [Partial<PaginationInput>] *)
Record PartialPaginationInput := {
  in_page : option num;
  in_limit : option num;
  in_total : option num
}.

Record PaginationConfig := {
  defaultLimit : num;
  maxLimit : num;
  includeLinks : bool;
  baseUrl : option string
}.

Definition validatePaginationInput (input : PartialPaginationInput)
    (config : PaginationConfig) : PaginationInput :=
  {| page := Math_max (int 1) (Math_floor (num_or (Number (in_page input)) (int 1)));
     limit :=
       Math_min (maxLimit config)
         (Math_max (int 1)
            (Math_floor (num_or (Number (in_limit input)) (defaultLimit config))));
     total := Math_max (int 0) (Math_floor (num_or (Number (in_total input)) (int 0))) |}.

End Validators.

(** ** Request parameters ([core/PaginationHelper.ts]) *)

Module PaginationHelper.
Import JS Validators.

Record PartialPaginationConfig := {
  c_defaultLimit : option num;
  c_maxLimit : option num;
  c_includeLinks : option bool;
  c_baseUrl : option string
}.

Definition PaginationHelper_new (config : PartialPaginationConfig) : PaginationConfig :=
  {| defaultLimit := default (int 10) (c_defaultLimit config);
     maxLimit := default (int 100) (c_maxLimit config);
     includeLinks := default false (c_includeLinks config);
     baseUrl := c_baseUrl config |}.

(** The parsed query string of a request. *)
Record Request := { query : list (string * value) }.

Definition query_param (req : Request) (k : string) : value :=
  default VUndefined (get_prop (query req) k).

(** A character of the class [[a-zA-Z0-9+/=_-]]. *)
Definition cursor_char (c : ascii) : bool :=
  let n := nat_of_ascii c in
  ((97 <=? n) && (n <=? 122) || (65 <=? n) && (n <=? 90) || (48 <=? n) && (n <=? 57)
   || (n =? 43) || (n =? 47) || (n =? 61) || (n =? 95) || (n =? 45))%nat.

(** [/^[a-zA-Z0-9+/=_-]+$/.test(s)] *)
Definition cursor_regex_test (s : string) : bool :=
  match list_ascii_of_string s with
  | [] => false
  | cs => forallb cursor_char cs
  end.

Definition validateCursor (cursor : value) : option string :=
  match cursor with
  | VStr s =>
      if (String.length s =? 0)%nat then None
      else if (512 <? String.length s)%nat then None
      else if negb (cursor_regex_test s) then None
      else Some s
  | _ => None
  end.

Definition isFinite (x : num) : bool :=
  match x with
  | Fin _ => true
  | _ => false
  end.

Definition isNaN (x : num) : bool :=
  match x with
  | NaN => true
  | _ => false
  end.

Record CursorParams := { cursor : option string; cursor_limit : num }.

Section WithParseInt.
(** [parseInt(s, 10)] of the JavaScript runtime. *)
Variable parseInt10 : string -> num.

Definition safeParseInt (v : value) (fallback max : num) : num :=
  match v with
  | VStr s =>
      let n := parseInt10 s in
      if negb (isFinite n) || isNaN n then fallback
      else Math_min max (Math_max (int 1) n)
  | _ => fallback
  end.

Definition extractCursorFromRequest (this : PaginationConfig) (req : Request)
    : CursorParams :=
  {| cursor := validateCursor (query_param req "cursor");
     cursor_limit :=
       Math_min (maxLimit this)
         (safeParseInt (query_param req "limit") (defaultLimit this) (maxLimit this)) |}.

End WithParseInt.

End PaginationHelper.

(** * Vocabulary of the properties *)

Module Spec.
Import JS Errors ErrorSerializer StatusCodeMapper Validators PaginationHelper.

(** Two strings that differ only in the case of their letters. *)
Definition same_ignoring_case (a b : string) : Prop := toLowerCase a = toLowerCase b.

(** The methods of the status table. *)
Definition ok_methods : list string := ["GET"; "PUT"; "PATCH"; "HEAD"; "OPTIONS"].
Definition known_methods : list string := "POST" :: "DELETE" :: ok_methods.

(** The characters a cursor may contain: letters, digits, and [+ / = _ -]. *)
Definition allowed_in_cursor (c : ascii) : Prop :=
  (nat_of_ascii "a" <= nat_of_ascii c <= nat_of_ascii "z")%nat
  \/ (nat_of_ascii "A" <= nat_of_ascii c <= nat_of_ascii "Z")%nat
  \/ (nat_of_ascii "0" <= nat_of_ascii c <= nat_of_ascii "9")%nat
  \/ In c ["+"; "/"; "="; "_"; "-"]%char.

(** [v] is the string [s], non-empty, of at most 512 allowed characters. *)
Definition well_formed_cursor (v : value) (s : string) : Prop :=
  v = VStr s
  /\ (1 <= String.length s <= 512)%nat
  /\ Forall allowed_in_cursor (list_ascii_of_string s).

(** The status an error carries itself ([error.statusCode] of an [ApiError]). *)
Definition explicit_status (e : error) : option num :=
  match e with
  | ApiErrorObj _ _ _ d => Some (statusCode d)
  | PlainErrorObj _ _ _ => None
  end.

(** No class of the map is a class of the error. *)
Definition no_match (e : error) (m : ErrorMap) : Prop :=
  Forall (fun p => instanceof e (fst p) = false) m.

(** [(C, s)] is the first entry of [m] whose class the error is an instance of. *)
Definition first_match (e : error) (m : ErrorMap) (C : ErrorConstructor) (s : num) : Prop :=
  exists before after,
    m = before ++ (C, s) :: after /\ no_match e before /\ instanceof e C = true.

(** An integer in the range 100..599. *)
Definition is_http_status (n : num) : bool :=
  match n with
  | Fin q => Qeq_bool q (inject_Z (Qfloor q)) && Qle_bool (inject_Z 100) q
             && Qle_bool q (inject_Z 599)
  | _ => false
  end.

(** The errors built by the constructors of the predefined subclasses. *)
Inductive predefined_error : error -> Prop :=
| pre_validation stack message flds options :
    predefined_error (ValidationError_new stack message flds options)
| pre_not_found stack message options :
    predefined_error (NotFoundError_new stack message options)
| pre_unauthorized stack message options :
    predefined_error (UnauthorizedError_new stack message options)
| pre_forbidden stack message options :
    predefined_error (ForbiddenError_new stack message options)
| pre_conflict stack message options :
    predefined_error (ConflictError_new stack message options)
| pre_internal stack message options :
    predefined_error (InternalServerError_new stack message options)
| pre_bad_request stack message options :
    predefined_error (BadRequestError_new stack message options)
| pre_rate_limit h stack message retryAfter options :
    predefined_error (fst (RateLimitError_new h stack message retryAfter options))
| pre_unavailable stack message options :
    predefined_error (ServiceUnavailableError_new stack message options)
| pre_unprocessable stack message options :
    predefined_error (UnprocessableEntityError_new stack message options).

(** Masking is enabled, and the sensitive names, under the given options. *)
Definition masking_on (options : PartialOptions) : Prop :=
  maskSensitiveData (merge_options options) = true.

Definition is_sensitive (options : PartialOptions) (key : string) : bool :=
  includes (map toLowerCase (sensitiveFields (merge_options options)))
    (toLowerCase key).

(** No custom serializer is registered for a class of the error. *)
Definition no_custom_serializer (options : PartialOptions) (e : error) : Prop :=
  first_serializer e (default [] (customSerializers (merge_options options))) = None.

(** A position inside a serialized value: the property names and array
    indices leading to it. *)
Inductive step :=
| Key (k : string)
| Index (i : nat).

Fixpoint value_at (v : value) (path : list step) : option value :=
  match path with
  | [] => Some v
  | Key k :: path' =>
      match v with
      | VObj props =>
          match get_prop props k with
          | Some x => value_at x path'
          | None => None
          end
      | _ => None
      end
  | Index i :: path' =>
      match v with
      | VArr items =>
          match items !! i with
          | Some x => value_at x path'
          | None => None
          end
      | _ => None
      end
  end.

Definition is_primitive (v : value) : bool :=
  match v with
  | VRef _ | VObj _ | VArr _ => false
  | _ => true
  end.

(** Values built by the sanitizer alone: no reference into the caller's
    objects is left, no pollution key occurs, an array holds at most 100
    elements, and objects and arrays nest at most [m] deep. *)
Inductive sanitized : nat -> value -> Prop :=
| san_prim m v : is_primitive v = true -> sanitized m v
| san_obj n m props :
    (n < m)%nat ->
    Forall (fun p => is_pollution_key (fst p) = false /\ sanitized n (snd p)) props ->
    sanitized m (VObj props)
| san_arr n m items :
    (n < m)%nat ->
    (length items <= 100)%nat ->
    Forall (sanitized n) items ->
    sanitized m (VArr items).

(** The loop bodies of the two traversals, named. *)
Definition mask_step (levels' : nat) (h : heap) (sensitiveFields : list string)
    (masked : list (string * value)) (entry : string * value) : list (string * value) :=
  let '(key, value) := entry in
  if is_pollution_key key then masked
  else if includes (map toLowerCase sensitiveFields) (toLowerCase key) then
    set_prop masked key REDACTED
  else if truthy value && typeof_object value && negb (isArray h value) then
    set_prop masked key (maskSensitiveFields_at levels' h value sensitiveFields)
  else set_prop masked key value.

Definition safe_item (levels' : nat) (h : heap)
    (acc : list value * gset nat) (item : jsval) : list value * gset nat :=
  let '(out, seen) := acc in
  match item with
  | JRef b =>
      let '(v, seen') := safeSerializeDetails_at levels' h b seen in
      (out ++ [v], seen')
  | _ => (out ++ [lift item], seen)
  end.

(** What the sanitizer stores for a property value, and the visited set after. *)
Definition safe_value (levels' : nat) (h : heap) (value : jsval) (seen : gset nat)
    : JS.value * gset nat :=
  match value with
  | JRef o =>
      match cell_at h o with
      | Err name message _ =>
          (VObj [("name", VStr name); ("message", VStr message)], seen)
      | Arr items =>
          let '(items', seen') :=
            fold_left (safe_item levels' h) (take 100 items) ([], seen) in
          (VArr items', seen')
      | Obj _ => safeSerializeDetails_at levels' h o seen
      end
  | _ => (lift value, seen)
  end.

Definition safe_step (levels' : nat) (h : heap)
    (acc : list (string * value) * gset nat) (entry : string * jsval)
    : list (string * value) * gset nat :=
  let '(result, seen) := acc in
  let '(key, value) := entry in
  if is_pollution_key key then (result, seen)
  else
    let '(v, seen') := safe_value levels' h value seen in
    (set_prop result key v, seen').

(** Every call of the sanitizer at [n] levels returns a visited set that
    contains the one it was given. *)
Definition grows (n : nat) (h : heap) : Prop :=
  forall b s, s ⊆ snd (safeSerializeDetails_at n h b s).

(** Every call of the sanitizer at [n] levels returns data nested at most
    [k] deep. *)
Definition plain_at (n k : nat) (h : heap) : Prop :=
  forall b s, sanitized k (fst (safeSerializeDetails_at n h b s)).

(** Properties free of pollution keys whose values nest at most [k] deep. *)
Definition plain_props (k : nat) (props : list (string * value)) : Prop :=
  Forall (fun p => is_pollution_key (fst p) = false /\ sanitized k (snd p)) props.

(** The [details] object of an error, when it is an [ApiError] that has one. *)
Definition details_of (e : error) : option addr :=
  match e with
  | ApiErrorObj _ _ _ d => details d
  | PlainErrorObj _ _ _ => None
  end.

(** The custom serializer chosen for the error throws, or returns [null] or
    [undefined] (whose properties cannot be read). *)
Definition serializer_fails (options : PartialOptions) (e : error) : Prop :=
  exists serializer,
    first_serializer e (default [] (customSerializers (merge_options options)))
    = Some serializer
    /\ (serializer e = Thrown \/ serializer e = Returned VUndefined
        \/ serializer e = Returned VNull).

(** A value the masking loop descends into. *)
Definition maskable (h : heap) (v : value) : bool :=
  truthy v && typeof_object v && negb (isArray h v).

(** What the masking loop stores for a property that is no pollution key. *)
Definition mask_value (n : nat) (h : heap) (sens : list string) (key : string)
    (v : value) : value :=
  if includes (map toLowerCase sens) (toLowerCase key) then REDACTED
  else if maskable h v then maskSensitiveFields_at n h v sens
  else v.

(** Every property the masking loop has stored is redacted when its key is
    sensitive, and is an object only if the loop built it. *)
Definition masked_entry (n : nat) (h : heap) (sens : list string)
    (p : string * value) : Prop :=
  (includes (map toLowerCase sens) (toLowerCase (fst p)) = true -> snd p = REDACTED)
  /\ ((exists v, snd p = maskSensitiveFields_at n h v sens)
      \/ forall props, snd p <> VObj props).

(** An integer that is at least [lo]; an integer between [lo] and [hi]. *)
Definition int_from (lo : Z) (x : num) : Prop := exists z, x = int z /\ (lo <= z)%Z.

Definition int_between (lo hi : Z) (x : num) : Prop :=
  exists z, x = int z /\ (lo <= z <= hi)%Z.

End Spec.

(** Data of the worked examples. *)

Module Examples.
Import JS Errors ErrorSerializer StatusCodeMapper Validators PaginationHelper.

(** A stand-in for [parseInt(s, 10)] reading a leading run of decimal digits. *)
Fixpoint leading_digits (s : string) (acc : option Z) : option Z :=
  match s with
  | String c s' =>
      let n := nat_of_ascii c in
      if ((48 <=? n) && (n <=? 57))%nat
      then leading_digits s' (Some (10 * default 0%Z acc + Z.of_nat (n - 48))%Z)
      else acc
  | EmptyString => acc
  end.

Definition parse_digits (s : string) : num :=
  match leading_digits s None with
  | Some z => int z
  | None => NaN
  end.

Definition helper_10_100 : PaginationConfig :=
  PaginationHelper_new
    {| c_defaultLimit := Some (int 10); c_maxLimit := Some (int 100);
       c_includeLinks := None; c_baseUrl := None |}.

Definition status_only (n : num) : ApiErrorOptions :=
  {| opt_code := None; opt_statusCode := Some n; opt_details := None;
     opt_fields := None; opt_context := None; opt_isOperational := None |}.

Definition with_details (a : addr) : ApiErrorOptions :=
  {| opt_code := None; opt_statusCode := None; opt_details := Some a;
     opt_fields := None; opt_context := None; opt_isOperational := None |}.

Definition default_policy : PartialOptions :=
  {| p_includeStack := None; p_maskSensitiveData := None;
     p_sensitiveFields := None; p_customSerializers := None |}.

Definition unmasked : PartialOptions :=
  {| p_includeStack := None; p_maskSensitiveData := Some false;
     p_sensitiveFields := None; p_customSerializers := None |}.

(** [{ constructor: 'x', safe: 'data' }] *)
Definition polluted_heap : heap :=
  {[ 0%nat := Obj [("constructor", JStr "x"); ("safe", JStr "data")] ]}.

(** [const d = { name: 'test' }; d.self = d] *)
Definition cyclic_heap : heap :=
  {[ 0%nat := Obj [("name", JStr "test"); ("self", JRef 0)] ]}.

(** [{ items: [{ password: 'hunter2' }], password: 'pw', user: 'ann' }] *)
Definition listed_heap : heap :=
  {[ 0%nat := Obj [("items", JRef 1); ("password", JStr "pw"); ("user", JStr "ann")];
     1%nat := Arr [JRef 2];
     2%nat := Obj [("password", JStr "hunter2")] ]}.

(** [const xs = [1]; { a: xs, b: xs }] *)
Definition shared_array_heap : heap :=
  {[ 0%nat := Obj [("a", JRef 1); ("b", JRef 1)];
     1%nat := Arr [JNum (int 1)] ]}.

(** [const s = { x: 1 }; { a: s, b: s }] *)
Definition shared_object_heap : heap :=
  {[ 0%nat := Obj [("a", JRef 1); ("b", JRef 1)];
     1%nat := Obj [("x", JNum (int 1))] ]}.

Definition error_with_details : error :=
  ApiError_new ApiError None "Test" (with_details 0).

(** A policy whose serializer for [Error] throws. *)
Definition throwing_policy : PartialOptions :=
  {| p_includeStack := None; p_maskSensitiveData := None;
     p_sensitiveFields := None;
     p_customSerializers := Some [(Plain Error, fun _ => Thrown)] |}.

Definition plain_boom : error := PlainErrorObj Error "boom" None.

(** [class TimeoutError extends Error], mapped to 504 after an entry for
    [ApiError]. *)
Definition TimeoutError : PlainClass := PlainSubclass 1 Error.

Definition timeout_error : error := PlainErrorObj TimeoutError "timed out" None.

Definition teapot_mapper : StatusCodeMapper :=
  StatusCodeMapper_new (Some [(Api ApiError, int 503); (Plain TimeoutError, int 504)]).

End Examples.

(** * Properties *)

(** ** Case mappings *)

Section CaseFacts.
Import JS Spec.

Lemma lower_upper_char c : lower_char (upper_char c) = lower_char c.
Proof. destruct c as [[] [] [] [] [] [] [] []]; reflexivity. Qed.

Lemma upper_lower_char c : upper_char (lower_char c) = upper_char c.
Proof. destruct c as [[] [] [] [] [] [] [] []]; reflexivity. Qed.

Lemma toLowerCase_toUpperCase s : toLowerCase (toUpperCase s) = toLowerCase s.
Proof. induction s as [|c s IH]; simpl; [done|]. by rewrite lower_upper_char, IH. Qed.

Lemma toUpperCase_toLowerCase s : toUpperCase (toLowerCase s) = toUpperCase s.
Proof. induction s as [|c s IH]; simpl; [done|]. by rewrite upper_lower_char, IH. Qed.

Lemma same_ignoring_case_upper a b :
  same_ignoring_case a b <-> toUpperCase a = toUpperCase b.
Proof.
  unfold same_ignoring_case. split; intros E.
  - rewrite <- (toUpperCase_toLowerCase a), E. apply toUpperCase_toLowerCase.
  - rewrite <- (toLowerCase_toUpperCase a), E. apply toLowerCase_toUpperCase.
Qed.

End CaseFacts.

(** ** Success status *)

Section SuccessStatus.
Import JS StatusCodeMapper Spec.

Lemma getSuccessStatusCode_upper method hasData :
  getSuccessStatusCode method hasData =
  getSuccessStatusCode (toUpperCase method) hasData.
Proof.
  unfold getSuccessStatusCode.
  by rewrite <- (toUpperCase_toLowerCase (toUpperCase method)),
     toLowerCase_toUpperCase, toUpperCase_toLowerCase.
Qed.

Lemma get_prop_not_in {A} (o : list (string * A)) k :
  ~ In k (map fst o) -> get_prop o k = None.
Proof.
  induction o as [|[k' v] o IH]; simpl; [done|]. intros N.
  rewrite IH by tauto.
  destruct (String.eqb_spec k' k); [exfalso; tauto | done].
Qed.

Lemma methodStatusCodes_unknown u :
  ~ In u known_methods -> get_prop methodStatusCodes u = None.
Proof.
  intros H. apply get_prop_not_in. intros I. apply H.
  unfold known_methods, ok_methods. simpl in *. tauto.
Qed.

(** C5.  The success status depends on the method name up to letter case only:
    a method spelled GET, PUT, PATCH, HEAD or OPTIONS gives 200, POST gives 201,
    DELETE gives 204 whether or not there is a body, and every other method
    gives 200. *)
Theorem getSuccessStatusCode_table (method : string) (hasData : bool) :
  (same_ignoring_case method "DELETE" ->
     getSuccessStatusCode method hasData = int 204) /\
  (same_ignoring_case method "POST" ->
     getSuccessStatusCode method hasData = int 201) /\
  (Exists (same_ignoring_case method) ok_methods ->
     getSuccessStatusCode method hasData = int 200) /\
  (~ Exists (same_ignoring_case method) known_methods ->
     getSuccessStatusCode method hasData = int 200).
Proof.
  rewrite getSuccessStatusCode_upper.
  repeat split.
  - intros E%same_ignoring_case_upper. rewrite E. by destruct hasData.
  - intros E%same_ignoring_case_upper. rewrite E. by destruct hasData.
  - intros E. unfold ok_methods in E.
    repeat (apply Exists_cons in E as [E%same_ignoring_case_upper|E];
            [rewrite E; by destruct hasData|]).
    by apply Exists_nil in E.
  - intros N.
    assert (~ In (toUpperCase method) known_methods) as NI.
    { intros I. apply N. apply Exists_exists. exists (toUpperCase method).
      split; [by apply list_elem_of_In|].
      apply same_ignoring_case_upper.
      unfold known_methods, ok_methods in I. simpl in I.
      repeat destruct I as [I|I]; try (by rewrite <- I at 2); done. }
    unfold getSuccessStatusCode.
    rewrite <- (toUpperCase_toLowerCase (toUpperCase method)),
      toLowerCase_toUpperCase, toUpperCase_toLowerCase.
    rewrite methodStatusCodes_unknown by done.
    destruct (String.eqb_spec (toUpperCase method) "DELETE") as [E|_]; [|done].
    exfalso. apply NI. rewrite E. unfold known_methods. simpl. tauto.
Qed.

Lemma getSuccessStatusCode_table_witness :
  getSuccessStatusCode "delete" true = int 204
  /\ getSuccessStatusCode "Post" false = int 201
  /\ getSuccessStatusCode "options" true = int 200
  /\ getSuccessStatusCode "PURGE" true = int 200.
Proof.
  destruct (getSuccessStatusCode_table "delete" true) as (D & _).
  destruct (getSuccessStatusCode_table "Post" false) as (_ & P & _).
  destruct (getSuccessStatusCode_table "options" true) as (_ & _ & O & _).
  destruct (getSuccessStatusCode_table "PURGE" true) as (_ & _ & _ & U).
  split; [|split; [|split]].
  - apply D. reflexivity.
  - apply P. reflexivity.
  - apply O. unfold ok_methods. repeat (first [by apply Exists_cons_hd | apply Exists_cons_tl]).
  - apply U. unfold known_methods, ok_methods, same_ignoring_case.
    rewrite Exists_exists. intros (x & I & E). simpl in E.
    repeat (apply elem_of_cons in I as [->|I]; [discriminate E|]).
    by apply elem_of_nil in I.
Defined.

End SuccessStatus.

(** ** Cursor extraction *)

Section CursorValidation.
Import JS Validators PaginationHelper Spec Examples.

Lemma ascii_code_eq (c d : ascii) : c = d <-> nat_of_ascii c = nat_of_ascii d.
Proof.
  split; [by intros ->|]. intros E.
  by rewrite <- (ascii_nat_embedding c), E, ascii_nat_embedding.
Qed.

Lemma cursor_char_allowed c : cursor_char c = true <-> allowed_in_cursor c.
Proof.
  unfold allowed_in_cursor, cursor_char. cbn [In].
  rewrite !(ascii_code_eq _ c).
  change (nat_of_ascii "a") with 97%nat. change (nat_of_ascii "z") with 122%nat.
  change (nat_of_ascii "A") with 65%nat. change (nat_of_ascii "Z") with 90%nat.
  change (nat_of_ascii "0") with 48%nat. change (nat_of_ascii "9") with 57%nat.
  change (nat_of_ascii "+") with 43%nat. change (nat_of_ascii "/") with 47%nat.
  change (nat_of_ascii "=") with 61%nat. change (nat_of_ascii "_") with 95%nat.
  change (nat_of_ascii "-") with 45%nat.
  generalize (nat_of_ascii c). intros n.
  rewrite !orb_true_iff, !andb_true_iff, !Nat.leb_le, !Nat.eqb_eq. lia.
Qed.

Lemma length_list_ascii s : length (list_ascii_of_string s) = String.length s.
Proof. induction s; simpl; congruence. Qed.

Lemma cursor_regex_test_spec s :
  cursor_regex_test s = true <->
  (1 <= String.length s)%nat /\ Forall allowed_in_cursor (list_ascii_of_string s).
Proof.
  unfold cursor_regex_test. rewrite <- length_list_ascii.
  destruct (list_ascii_of_string s) as [|c cs] eqn:E.
  - simpl. split; [discriminate | lia].
  - rewrite forallb_forall, Forall_forall. simpl length. split.
    + intros H. split; [lia|]. intros x I. apply cursor_char_allowed, H.
      by apply list_elem_of_In.
    + intros [_ H] x I. apply cursor_char_allowed, H. by apply list_elem_of_In.
Qed.

Lemma validateCursor_spec v :
  (forall s, well_formed_cursor v s -> validateCursor v = Some s)
  /\ ((forall s, ~ well_formed_cursor v s) -> validateCursor v = None).
Proof.
  split.
  - intros s (-> & [L1 L2] & F). unfold validateCursor.
    destruct (Nat.eqb_spec (String.length s) 0); [lia|].
    destruct (Nat.ltb_spec 512 (String.length s)); [lia|].
    assert (cursor_regex_test s = true) as -> by (apply cursor_regex_test_spec; split; [lia|done]).
    reflexivity.
  - intros N. unfold validateCursor. destruct v; try reflexivity.
    destruct (Nat.eqb_spec (String.length s) 0); [done|].
    destruct (Nat.ltb_spec 512 (String.length s)); [done|].
    destruct (cursor_regex_test s) eqn:T; [|done].
    exfalso. apply (N s). apply cursor_regex_test_spec in T as [T1 T2].
    repeat split; [lia | lia | done].
Qed.

(** C8.  Cursor extraction returns a result for every request: a cursor that is
    a non-empty string of at most 512 characters, all of them letters, digits or
    one of [+ / = _ -], comes back unchanged; every other cursor value (a value
    that is no string, the empty string, a longer string, or a string holding
    another character) is reported as absent. *)
Theorem extractCursorFromRequest_cursor (parseInt10 : string -> num)
    (this : PaginationConfig) (req : Request) :
  (forall s, well_formed_cursor (query_param req "cursor") s ->
     cursor (extractCursorFromRequest parseInt10 this req) = Some s)
  /\ ((forall s, ~ well_formed_cursor (query_param req "cursor") s) ->
     cursor (extractCursorFromRequest parseInt10 this req) = None).
Proof. unfold extractCursorFromRequest. simpl. apply validateCursor_spec. Qed.

Lemma extractCursorFromRequest_cursor_witness :
  cursor (extractCursorFromRequest parse_digits helper_10_100
            {| query := [("cursor", VStr "eyJpZCI6MTIzfQ=="); ("limit", VStr "10")] |})
  = Some "eyJpZCI6MTIzfQ=="
  /\ cursor (extractCursorFromRequest parse_digits helper_10_100
            {| query := [("cursor", VStr "'; DROP TABLE x; --"); ("limit", VStr "10")] |})
  = None.
Proof.
  split.
  - apply (extractCursorFromRequest_cursor parse_digits helper_10_100).
    split; [reflexivity|]. split; [simpl; lia|].
    simpl.
    repeat (apply Forall_cons; split; [apply cursor_char_allowed; reflexivity|]).
    by constructor.
  - apply (extractCursorFromRequest_cursor parse_digits helper_10_100).
    intros s (E & _ & F). injection E as <-. simpl in F.
    apply Forall_cons in F as [F _]. apply cursor_char_allowed in F. discriminate F.
Defined.

End CursorValidation.

(** ** Status of an error *)

Section ErrorStatus.
Import JS Errors StatusCodeMapper Spec Examples.

Lemma api_extends_ApiError c : api_extends c ApiError = true.
Proof. induction c; simpl; try done; by destruct (decide _). Qed.

Lemma instanceof_ApiError e :
  instanceof e (Api ApiError) = true <-> is_Some (explicit_status e).
Proof.
  destruct e; simpl.
  - split; [discriminate | by intros [? ?]].
  - rewrite api_extends_ApiError. split; eauto.
Qed.

Lemma http_status_truthy n : is_http_status n = true -> num_truthy n = true.
Proof.
  destruct n as [| | |q]; simpl; try discriminate.
  rewrite !andb_true_iff. intros [[_ L] _].
  apply Qle_bool_iff in L. apply negb_true_iff.
  destruct (Qeq_bool q 0) eqn:E; [|done].
  apply Qeq_bool_iff in E. rewrite E in L. by compute in L.
Qed.

Lemma ApiError_new_status cls stack message options :
  explicit_status (ApiError_new cls stack message options)
  = Some (num_or (Number (opt_statusCode options)) (int 500)).
Proof. reflexivity. Qed.

(** C9, as stated, fails: the constructor stores a status of 999 as given. *)
Lemma ApiError_status_unchecked :
  ~ (forall cls stack message options n,
       explicit_status (ApiError_new cls stack message options) = Some n ->
       is_http_status n = true).
Proof.
  intros H.
  specialize (H ApiError None "Teapot" (status_only (int 999)) (int 999) eq_refl).
  discriminate H.
Qed.

(** C9, amended.  The constructor of [ApiError] does not validate the status:
    it stores the status it is given when that is truthy and 500 otherwise.  So
    the status is an integer in 100..599 when the given one is, or when none (or
    a falsy one) is given; every error built by a predefined subclass has such a
    status; and [withContext] hands a status in that range on unchanged. *)
Theorem ApiError_status_valid :
  (forall cls stack message options n,
     explicit_status (ApiError_new cls stack message options) = Some n ->
     match opt_statusCode options with
     | Some s => is_http_status s = true \/ num_truthy s = false
     | None => True
     end ->
     is_http_status n = true)
  /\ (forall e, predefined_error e ->
        exists n, explicit_status e = Some n /\ is_http_status n = true)
  /\ (forall e stack ctx e' n,
        withContext e stack ctx = Some e' ->
        explicit_status e = Some n ->
        is_http_status n = true ->
        explicit_status e' = Some n).
Proof.
  split; [|split].
  - intros cls stack message options n E V.
    rewrite ApiError_new_status in E. injection E as <-.
    destruct (opt_statusCode options) as [s|]; simpl; [|done].
    unfold num_or. destruct V as [V|V].
    + by rewrite (http_status_truthy _ V).
    + by rewrite V.
  - intros e P. destruct P; try (eexists; split; [reflexivity|reflexivity]).
    unfold RateLimitError_new.
    destruct (num_truthy (Number retryAfter)); eexists; split; reflexivity.
  - intros e stack ctx e' n W E V. destruct e as [|cls m st d]; [discriminate|].
    simpl in E. injection E as E. subst n. simpl in W. injection W as <-.
    rewrite ApiError_new_status. simpl. unfold num_or.
    by rewrite (http_status_truthy _ V).
Qed.

Lemma ApiError_status_valid_witness :
  is_http_status (int 418) = true
  /\ explicit_status (ApiError_new ApiError None "Teapot" (status_only (int 418)))
     = Some (int 418)
  /\ exists n, explicit_status (NotFoundError_new None "Missing" no_options) = Some n
              /\ is_http_status n = true.
Proof.
  destruct ApiError_status_valid as (A & P & _).
  split; [|split].
  - apply (A ApiError None "Teapot" (status_only (int 418)) (int 418));
      [reflexivity | left; reflexivity].
  - reflexivity.
  - apply P. constructor.
Defined.

Lemma first_mapping_no_match e m : no_match e m -> first_mapping e m = None.
Proof.
  induction 1 as [|[C s] m H _ IH]; simpl; [done|]. simpl in H. by rewrite H.
Qed.

Lemma first_mapping_first_match e m C s :
  first_match e m C s -> first_mapping e m = Some s.
Proof.
  intros (before & after & -> & N & I).
  induction N as [|[C' s'] m H _ IH]; simpl.
  - by rewrite I.
  - simpl in H. by rewrite H.
Qed.

Lemma first_mapping_None e m : first_mapping e m = None -> no_match e m.
Proof.
  induction m as [|[C s] m IH]; simpl; [by constructor|].
  destruct (instanceof e C) eqn:I; [discriminate|].
  intros H. constructor; [done | by apply IH].
Qed.

(** An error that is no [ApiError] is an instance of no class of the built-in
    table: every class there derives from [ApiError]. *)
Lemma defaults_need_ApiError e :
  explicit_status e = None -> no_match e defaultErrorMappings.
Proof.
  destruct e; [|discriminate]. intros _.
  unfold no_match, defaultErrorMappings. repeat constructor.
Qed.

(** C4.  Status resolution takes the first of: the status the error carries
    itself, returned as it is whatever the custom and the built-in tables hold;
    the status of the first custom entry whose class the error is an instance
    of; the status of the first such entry of the built-in table; 500.  (The
    classes of the built-in table all derive from [ApiError], whose instances
    carry a status, so for this table the third case never decides.) *)
Theorem getStatusCode_first_match_wins (this : StatusCodeMapper) (e : error) :
  (forall s, explicit_status e = Some s -> getStatusCode this e = s)
  /\ (forall C s, explicit_status e = None ->
        first_match e (customMappings this) C s ->
        getStatusCode this e = s)
  /\ (explicit_status e = None ->
      no_match e (customMappings this) ->
      (exists C s, first_match e defaultErrorMappings C s /\ getStatusCode this e = s)
      \/ (no_match e defaultErrorMappings /\ getStatusCode this e = int 500)).
Proof.
  split; [|split].
  - intros s E. destruct e; [discriminate|]. simpl in *. congruence.
  - intros C s E F. destruct e; [|discriminate]. simpl.
    by rewrite (first_mapping_first_match _ _ _ _ F).
  - intros E N. right. split; [by apply defaults_need_ApiError|].
    destruct e; [|discriminate]. cbv beta iota delta [getStatusCode].
    rewrite (first_mapping_no_match _ _ N).
    by rewrite (first_mapping_no_match _ _ (defaults_need_ApiError _ E)).
Qed.

End ErrorStatus.

(** ** Properties of objects under construction *)

Section PropsFacts.
Import JS.
Context {A : Type}.
Implicit Types (o : list (string * A)) (k : string) (v : A).

Lemma get_prop_app_last o k' v k :
  get_prop (o ++ [(k', v)]) k = if String.eqb k' k then Some v else get_prop o k.
Proof.
  induction o as [|[k0 v0] o IH]; simpl.
  - reflexivity.
  - rewrite IH. destruct (String.eqb k' k); [done|].
    reflexivity.
Qed.

Lemma get_prop_In o k v : get_prop o k = Some v -> In (k, v) o.
Proof.
  induction o as [|[k0 v0] o IH]; simpl; [discriminate|].
  destruct (get_prop o k) as [x|] eqn:E.
  - intros [= <-]. right. by apply IH.
  - destruct (String.eqb_spec k0 k) as [->|]; [|discriminate].
    intros [= <-]. by left.
Qed.

Lemma get_prop_None o k : get_prop o k = None <-> ~ In k (map fst o).
Proof.
  induction o as [|[k0 v0] o IH]; simpl.
  - tauto.
  - destruct (get_prop o k) as [x|] eqn:E.
    + split; [discriminate|]. intros N. exfalso. apply N. right.
      apply get_prop_In in E. by apply (in_map fst) in E.
    + destruct (String.eqb_spec k0 k) as [->|N].
      * split; [discriminate | tauto].
      * split; [|done]. intros _ [?|?]; [done|]. by apply IH.
Qed.

Lemma has_prop_false o k : has_prop o k = false <-> get_prop o k = None.
Proof.
  rewrite get_prop_None. unfold has_prop. induction o as [|[k0 v0] o IH]; simpl.
  - tauto.
  - rewrite orb_false_iff, IH.
    destruct (String.eqb_spec k0 k) as [->|N]; split; try tauto;
      first [ intros [? _]; discriminate | intros H; split; [done | tauto] ].
Qed.

Lemma map_set_absent o k v :
  has_prop o k = false ->
  map (fun p => if String.eqb (fst p) k then (fst p, v) else p) o = o.
Proof.
  unfold has_prop. induction o as [|[k1 v1] o IH]; simpl; [done|].
  intros [H1 H2]%orb_false_iff. rewrite H1. f_equal. by apply IH.
Qed.

Lemma get_set_prop o k v k' :
  get_prop (set_prop o k v) k' = if String.eqb k k' then Some v else get_prop o k'.
Proof.
  unfold set_prop. destruct (has_prop o k) eqn:H.
  - induction o as [|[k0 v0] o IH]; [discriminate|].
    cbn [map get_prop fst].
    destruct (has_prop o k) eqn:H'.
    + rewrite IH by done.
      destruct (String.eqb_spec k0 k) as [->|N0];
        destruct (String.eqb_spec k k') as [->|N]; try done.
    + unfold has_prop in H, H'. simpl in H. rewrite H' in H.
      rewrite orb_false_r in H. apply String.eqb_eq in H as ->.
      rewrite map_set_absent by done.
      apply has_prop_false in H'. rewrite String.eqb_refl.
      destruct (String.eqb_spec k k') as [->|N].
      * by rewrite H'.
      * reflexivity.
  - rewrite get_prop_app_last. reflexivity.
Qed.
Lemma In_set_prop o k v k' x :
  In (k', x) (set_prop o k v) -> (k' = k /\ x = v) \/ In (k', x) o.
Proof.
  unfold set_prop. destruct (has_prop o k).
  - rewrite in_map_iff. intros ([k0 v0] & E & I). simpl in E.
    destruct (String.eqb_spec k0 k) as [->|N]; injection E as <- <-; tauto.
  - rewrite in_app_iff. simpl. intros [?|[[= <- <-]|[]]]; tauto.
Qed.

Lemma Forall_set_prop (P : string * A -> Prop) o k v :
  Forall P o -> P (k, v) -> Forall P (set_prop o k v).
Proof.
  intros F H. apply Forall_forall. intros [k' x] I%list_elem_of_In.
  apply In_set_prop in I as [[-> ->]|I]; [done|].
  rewrite Forall_forall in F. by apply F, list_elem_of_In.
Qed.

End PropsFacts.

(** ** The two traversals *)

Section Traversals.
Import JS Errors ErrorSerializer Spec.

Lemma fold_left_pointwise {S T} (f g : S -> T -> S) l a :
  (forall a b, f a b = g a b) -> fold_left f l a = fold_left g l a.
Proof. intros E. revert a. induction l as [|b l IH]; intros a; simpl; [done|]. by rewrite E, IH. Qed.

Lemma maskSensitiveFields_at_S n h obj sens :
  maskSensitiveFields_at (S n) h obj sens
  = VObj (fold_left (mask_step n h sens) (entries_of h obj) []).
Proof. reflexivity. Qed.

Lemma safeSerializeDetails_at_S n h a seen :
  safeSerializeDetails_at (S n) h a seen
  = if bool_decide (a ∈ seen) then (circular_marker, seen)
    else let '(result, seen') :=
           fold_left (safe_step n h) (cell_entries (cell_at h a)) ([], {[a]} ∪ seen) in
         (VObj result, seen').
Proof.
  cbn [safeSerializeDetails_at]. destruct (bool_decide (a ∈ seen)); [done|].
  erewrite fold_left_pointwise; [reflexivity|].
  intros [result s] [key value]. unfold safe_step, safe_value.
  destruct (is_pollution_key key); [done|].
  destruct value as [| | | | |o]; try done.
  destruct (cell_at h o); try done.
  rewrite (fold_left_pointwise _ (safe_item n h)) by (by intros [? ?] ?).
  by destruct (fold_left _ _ _).
Qed.

(** *** The visited set only grows *)

Lemma safe_item_grows n h items acc :
  grows n h -> snd acc ⊆ snd (fold_left (safe_item n h) items acc).
Proof.
  intros G. revert acc. induction items as [|item items IH]; intros [out s]; simpl; [done|].
  etrans; [|apply IH].
  destruct item; simpl; try done.
  specialize (G a s). by destruct (safeSerializeDetails_at n h a s).
Qed.

Lemma safe_value_grows n h v s :
  grows n h -> s ⊆ snd (safe_value n h v s).
Proof.
  intros G. destruct v as [| | | | |o]; simpl; try done.
  destruct (cell_at h o); simpl; [apply G| |done].
  - pose proof (safe_item_grows n h (take 100 items) ([], s) G) as M.
    by destruct (fold_left _ _ _).
Qed.

Lemma safe_step_grows n h entries acc :
  grows n h -> snd acc ⊆ snd (fold_left (safe_step n h) entries acc).
Proof.
  intros G. revert acc.
  induction entries as [|[key v] entries IH]; intros [result s]; simpl; [done|].
  etrans; [|apply IH].
  destruct (is_pollution_key key); simpl; [done|].
  pose proof (safe_value_grows n h v s G) as M.
  by destruct (safe_value n h v s).
Qed.

Lemma safeSerializeDetails_at_grows n h : grows n h.
Proof.
  induction n as [|n IH]; intros a s; [done|].
  rewrite safeSerializeDetails_at_S. case_bool_decide; [done|].
  pose proof (safe_step_grows n h (cell_entries (cell_at h a)) ([], {[a]} ∪ s) IH) as M.
  destruct (fold_left _ _ _). simpl in *. set_solver.
Qed.

Lemma safeSerializeDetails_at_records n h a s :
  a ∈ snd (safeSerializeDetails_at (S n) h a s).
Proof.
  rewrite safeSerializeDetails_at_S. case_bool_decide; [done|].
  pose proof (safe_step_grows n h (cell_entries (cell_at h a)) ([], {[a]} ∪ s)
                (safeSerializeDetails_at_grows n h)) as M.
  destruct (fold_left _ _ _). simpl in *. set_solver.
Qed.

Lemma safeSerializeDetails_at_revisit n h a s :
  a ∈ s -> safeSerializeDetails_at (S n) h a s = (circular_marker, s).
Proof. intros I. rewrite safeSerializeDetails_at_S. by rewrite bool_decide_eq_true_2. Qed.

(** *** The sanitizer's output is plain, bounded data *)

Lemma sanitized_mono n m v : sanitized n v -> (n <= m)%nat -> sanitized m v.
Proof.
  intros S L. destruct S as [n v P|n0 n props L0 F|n0 n items L0 L1 F].
  - by apply san_prim.
  - apply (san_obj n0); [lia | done].
  - apply (san_arr n0); [lia | done | done].
Qed.

Lemma sanitized_lift m v : (forall a, v <> JRef a) -> sanitized m (lift v).
Proof. intros N. destruct v; try (by apply san_prim). by destruct (N a). Qed.

Lemma sanitized_marker m k : (0 < m)%nat -> is_pollution_key k = false ->
  sanitized m (VObj [(k, VBool true)]).
Proof.
  intros L P. apply (san_obj 0); [done|].
  constructor; [split; [done | by apply san_prim] | constructor].
Qed.

Lemma safe_item_sanitized n k h items acc :
  plain_at n k h ->
  Forall (sanitized k) (fst acc) ->
  Forall (sanitized k) (fst (fold_left (safe_item n h) items acc))
  /\ length (fst (fold_left (safe_item n h) items acc))
     = (length (fst acc) + length items)%nat.
Proof.
  intros G. revert acc.
  induction items as [|item items IH]; intros [out s] F; simpl in *.
  - split; [done | lia].
  - assert (forall v s', Forall (sanitized k) (fst (out ++ [v], s')) ->
                         Forall (sanitized k)
                           (fst (fold_left (safe_item n h) items (out ++ [v], s')))
                         /\ length (fst (fold_left (safe_item n h) items (out ++ [v], s')))
                            = (length out + S (length items))%nat) as K.
    { intros v s' F'. destruct (IH (out ++ [v], s') F') as [I1 I2].
      split; [done|]. rewrite I2. simpl. rewrite length_app. simpl. lia. }
    destruct item as [| | | | |b];
      try (apply K; simpl; apply Forall_app; split; [done|];
           constructor; [by apply san_prim | constructor]).
    specialize (G b s). destruct (safeSerializeDetails_at n h b s) as [v s'].
    apply K. simpl. apply Forall_app. split; [done|]. constructor; [done | constructor].
Qed.

Lemma safe_value_sanitized n k h v s :
  plain_at n k h -> sanitized (S k) (fst (safe_value n h v s)).
Proof.
  intros G. destruct v as [| | | | |o]; simpl; try (by apply san_prim).
  destruct (cell_at h o) as [props|items|name message props]; simpl.
  - apply (sanitized_mono k); [apply G | lia].
  - destruct (safe_item_sanitized n k h (take 100 items) ([], s) G) as [F L];
      [by constructor|].
    destruct (fold_left _ _ _) as [items' s']. simpl in *.
    apply (san_arr k); [lia | | done].
    rewrite L, length_take. lia.
  - apply (san_obj k); [lia|].
    constructor; [split; [done | by apply san_prim]|].
    constructor; [split; [done | by apply san_prim] | constructor].
Qed.

Lemma safe_step_sanitized n k h entries acc :
  plain_at n k h ->
  plain_props (S k) (fst acc) ->
  plain_props (S k) (fst (fold_left (safe_step n h) entries acc)).
Proof.
  intros G. revert acc.
  induction entries as [|[key v] entries IH]; intros [result s] F; simpl in *; [done|].
  apply IH. destruct (is_pollution_key key) eqn:P; simpl; [done|].
  pose proof (safe_value_sanitized n k h v s G) as M.
  destruct (safe_value n h v s) as [x s']. simpl in *.
  by apply Forall_set_prop.
Qed.

Lemma safeSerializeDetails_at_sanitized n h : plain_at n (2 * n + 1) h.
Proof.
  induction n as [|n IH]; intros a s.
  - simpl. apply sanitized_marker; [lia | done].
  - rewrite safeSerializeDetails_at_S. case_bool_decide; simpl.
    + apply sanitized_marker; [lia | done].
    + pose proof (safe_step_sanitized n (2 * n + 1) h (cell_entries (cell_at h a))
                    ([], {[a]} ∪ s) IH) as M.
      destruct (fold_left _ _ _) as [result s']. simpl in *.
      apply (san_obj (S (2 * n + 1))); [lia|]. apply M. constructor.
Qed.

(** Masking keeps sanitized data sanitized. *)
Lemma mask_step_sanitized n k h sens entries acc :
  (forall props, sanitized k (VObj props) ->
                 sanitized k (maskSensitiveFields_at n h (VObj props) sens)) ->
  plain_props k entries -> plain_props k acc ->
  plain_props k (fold_left (mask_step n h sens) entries acc).
Proof.
  intros IHn F. revert acc.
  induction F as [|[key v] entries [P S] F IH]; intros acc A; simpl in *; [done|].
  apply IH. rewrite P.
  destruct (includes _ _).
  { apply Forall_set_prop; [done|]. split; [done | by apply san_prim]. }
  destruct (truthy v && typeof_object v && negb (isArray h v)) eqn:M.
  - apply Forall_set_prop; [done|]. split; [done|].
    destruct S as [m v Pr|n0 m props L0 F0|n0 m items L0 L1 F0].
    + destruct v; simpl in Pr, M; try discriminate;
        rewrite ?andb_false_r in M; discriminate.
    + apply IHn. by apply (san_obj n0).
    + simpl in M. discriminate M.
  - by apply Forall_set_prop.
Qed.

Lemma maskSensitiveFields_at_sanitized n m h sens props :
  sanitized m (VObj props) ->
  sanitized m (maskSensitiveFields_at n h (VObj props) sens).
Proof.
  revert m props. induction n as [|n IH]; intros m props S.
  - inversion S as [? ? Pr|n0 ? ? L0 F0|]; subst; [discriminate|].
    apply sanitized_marker; [lia | done].
  - rewrite maskSensitiveFields_at_S. simpl entries_of.
    inversion S as [? ? Pr|n0 ? ? L0 F0|]; subst; [discriminate|].
    apply (san_obj n0); [done|].
    apply mask_step_sanitized; [apply IH | done | constructor].
Qed.

(** No pollution key is left anywhere in sanitized data. *)
Lemma sanitized_value_at m v path k x :
  sanitized m v -> value_at v (path ++ [Key k]) = Some x ->
  is_pollution_key k = false.
Proof.
  revert m v. induction path as [|st path IH]; intros m v S E.
  - simpl in E. destruct v; try discriminate.
    destruct (get_prop props k) as [y|] eqn:G; [|discriminate].
    apply get_prop_In in G.
    inversion S as [? ? Pr|n0 ? ? L0 F0|]; subst; [discriminate|].
    rewrite Forall_forall in F0. by destruct (F0 (k, y) (proj2 (list_elem_of_In _ _) G)).
  - destruct st as [k0|i]; simpl in E.
    + destruct v; try discriminate.
      destruct (get_prop props k0) as [y|] eqn:G; [|discriminate].
      apply get_prop_In in G.
      inversion S as [? ? Pr|n0 ? ? L0 F0|]; subst; [discriminate|].
      rewrite Forall_forall in F0.
      destruct (F0 (k0, y) (proj2 (list_elem_of_In _ _) G)) as [_ Sy].
      by apply (IH n0 y).
    + destruct v; try discriminate.
      destruct (items !! i) as [y|] eqn:G; [|discriminate].
      inversion S as [? ? Pr| |n0 ? ? L0 L1 F0]; subst; [discriminate|].
      rewrite Forall_forall in F0.
      apply (IH n0 y); [|done]. apply F0. by apply list_elem_of_lookup_2 in G.
Qed.

End Traversals.

(** ** The serializer *)

Section Serializer.
Import JS Errors ErrorSerializer Spec Examples.

(** With masking enabled and no custom serializer for the error, the details
    reported are the masked, sanitized [details] of the error. *)
Lemma serializeError_details h e options r dv :
  masking_on options -> no_custom_serializer options e ->
  serializeError h e options = Returned r ->
  ed_details r = Some dv ->
  exists a, details_of e = Some a
    /\ dv = maskSensitiveFields h (fst (safeSerializeDetails h a ∅ 0))
              (sensitiveFields (merge_options options)) 0.
Proof.
  unfold masking_on, no_custom_serializer, serializeError. intros M N.
  rewrite N. destruct e as [cls message stack|cls message stack d].
  - intros [= <-]. discriminate.
  - rewrite M. simpl. intros [= <-]. simpl.
    destruct (details d) as [a|]; [|discriminate].
    destruct (_ <? _)%nat; [|discriminate]. intros [= <-]. by exists a.
Qed.

Lemma safeSerializeDetails_object n h a s :
  exists props, fst (safeSerializeDetails_at n h a s) = VObj props.
Proof.
  destruct n as [|n]; [by eexists|].
  rewrite safeSerializeDetails_at_S. case_bool_decide; [by eexists|].
  destruct (fold_left _ _ _). by eexists.
Qed.







End Serializer.

(** ** Redaction *)

Section Redaction.
Import JS Errors ErrorSerializer Spec Examples.

Lemma mask_step_eq n h sens acc key v :
  mask_step n h sens acc (key, v)
  = if is_pollution_key key then acc
    else set_prop acc key (mask_value n h sens key v).
Proof.
  unfold mask_step, mask_value, maskable.
  destruct (is_pollution_key key); [done|].
  destruct (includes _ _); [done|]. by destruct (_ && _ && _).
Qed.

Lemma mask_step_other n h sens entries acc k :
  ~ In k (map fst entries) ->
  get_prop (fold_left (mask_step n h sens) entries acc) k = get_prop acc k.
Proof.
  revert acc. induction entries as [|[k0 v0] entries IH]; intros acc N; [done|].
  cbn [fold_left]. simpl in N. rewrite IH by tauto. rewrite mask_step_eq.
  destruct (is_pollution_key k0); [done|].
  rewrite get_set_prop. destruct (String.eqb_spec k0 k); [exfalso; tauto | done].
Qed.

Lemma mask_step_get n h sens entries acc k v :
  get_prop entries k = Some v -> is_pollution_key k = false ->
  get_prop (fold_left (mask_step n h sens) entries acc) k
  = Some (mask_value n h sens k v).
Proof.
  revert acc. induction entries as [|[k0 v0] entries IH]; intros acc G P; [discriminate|].
  cbn [fold_left]. simpl in G.
  destruct (get_prop entries k) as [y|] eqn:E.
  - injection G as ->. by apply IH.
  - destruct (String.eqb_spec k0 k) as [->|]; [|discriminate]. injection G as ->.
    rewrite mask_step_other by (by apply get_prop_None).
    rewrite mask_step_eq, P, get_set_prop. by rewrite String.eqb_refl.
Qed.

Lemma mask_step_masked n h sens entries acc :
  Forall (masked_entry n h sens) acc ->
  Forall (masked_entry n h sens) (fold_left (mask_step n h sens) entries acc).
Proof.
  revert acc. induction entries as [|[key v] entries IH]; intros acc F; [done|].
  cbn [fold_left]. apply IH. rewrite mask_step_eq.
  destruct (is_pollution_key key); [done|].
  apply Forall_set_prop; [done|]. unfold masked_entry, mask_value. simpl.
  destruct (includes _ _).
  - split; [done|]. right. intros props. discriminate.
  - split; [discriminate|]. destruct (maskable h v) eqn:M.
    + left. by eexists.
    + right. intros props ->. discriminate M.
Qed.

Lemma maskSensitiveFields_at_redacts n h sens obj keys k x :
  (length keys < n)%nat ->
  value_at (maskSensitiveFields_at n h obj sens) (map Key keys ++ [Key k]) = Some x ->
  includes (map toLowerCase sens) (toLowerCase k) = true ->
  x = REDACTED.
Proof.
  revert n obj. induction keys as [|k0 keys IH]; intros n obj L V I.
  - destruct n as [|n]; [simpl in L; lia|].
    rewrite maskSensitiveFields_at_S in V. simpl in V.
    destruct (get_prop _ k) as [y|] eqn:G; [|discriminate]. injection V as ->.
    pose proof (mask_step_masked n h sens (entries_of h obj) [] ltac:(constructor)) as F.
    rewrite Forall_forall in F.
    apply get_prop_In, list_elem_of_In in G. by apply (F _ G).
  - destruct n as [|n]; [simpl in L; lia|].
    rewrite maskSensitiveFields_at_S in V. simpl in V.
    destruct (get_prop _ k0) as [y|] eqn:G; [|discriminate].
    pose proof (mask_step_masked n h sens (entries_of h obj) [] ltac:(constructor)) as F.
    rewrite Forall_forall in F.
    apply get_prop_In, list_elem_of_In in G.
    destruct (F _ G) as [_ H]. simpl in H. destruct H as [[v ->]|N].
    + apply (IH n v); [simpl in L; lia | done | done].
    + destruct y; try (by destruct keys); by destruct (N props).
Qed.

(** The same for the sanitizing loop, which also threads the visited set. *)

Lemma safe_step_eq n h result s key v :
  safe_step n h (result, s) (key, v)
  = if is_pollution_key key then (result, s)
    else (set_prop result key (fst (safe_value n h v s)), snd (safe_value n h v s)).
Proof.
  unfold safe_step. destruct (is_pollution_key key); [done|].
  by destruct (safe_value n h v s).
Qed.

Lemma safe_step_other n h entries acc k :
  ~ In k (map fst entries) ->
  get_prop (fst (fold_left (safe_step n h) entries acc)) k = get_prop (fst acc) k.
Proof.
  revert acc. induction entries as [|[k0 v0] entries IH]; intros [result s] N; [done|].
  cbn [fold_left]. simpl in N. rewrite IH by tauto. rewrite safe_step_eq.
  destruct (is_pollution_key k0); [done|]. cbn [fst].
  rewrite get_set_prop. destruct (String.eqb_spec k0 k); [exfalso; tauto | done].
Qed.

Lemma safe_step_get n h entries acc k v :
  get_prop entries k = Some v -> is_pollution_key k = false ->
  exists s1, snd acc ⊆ s1
    /\ get_prop (fst (fold_left (safe_step n h) entries acc)) k
       = Some (fst (safe_value n h v s1)).
Proof.
  revert acc. induction entries as [|[k0 v0] entries IH]; intros [result s] G P;
    [discriminate|].
  cbn [fold_left]. simpl in G.
  destruct (get_prop entries k) as [y|] eqn:E.
  - injection G as ->.
    destruct (IH (safe_step n h (result, s) (k0, v0)) eq_refl P) as (s1 & I & H).
    exists s1. split; [|done]. etrans; [|exact I].
    apply (safe_step_grows n h [(k0, v0)] (result, s)), safeSerializeDetails_at_grows.
  - destruct (String.eqb_spec k0 k) as [->|]; [|discriminate]. injection G as ->.
    exists s. split; [done|].
    rewrite safe_step_other by (by apply get_prop_None).
    rewrite safe_step_eq, P. cbn [fst]. rewrite get_set_prop.
    by rewrite String.eqb_refl.
Qed.

Lemma safe_value_primitive n h v s :
  (forall o, v <> JRef o) -> safe_value n h v s = (lift v, s).
Proof. intros N. destruct v as [| | | | |o']; try done. by destruct (N o'). Qed.

Lemma maskable_lift h v : (forall o, v <> JRef o) -> maskable h (lift v) = false.
Proof.
  intros N. destruct v as [| |b|x|x|o']; try done;
    try (unfold maskable; simpl; by rewrite ?andb_false_r).
  by destruct (N o').
Qed.

Lemma mask_circular_marker n h sens :
  includes (map toLowerCase sens) "_circular" = false ->
  maskSensitiveFields_at (S n) h circular_marker sens = circular_marker.
Proof.
  intros I. rewrite maskSensitiveFields_at_S. simpl entries_of. cbn [fold_left].
  rewrite mask_step_eq. unfold mask_value.
  change (toLowerCase "_circular") with "_circular". by rewrite I.
Qed.

(** The details reported with masking enabled are the output of the masking
    loop, whichever way the error was serialized. *)
Lemma serializeError_masked h e options r dv :
  masking_on options ->
  serializeError h e options = Returned r ->
  ed_details r = Some dv ->
  exists obj,
    dv = maskSensitiveFields_at 11 h obj (sensitiveFields (merge_options options)).
Proof.
  unfold masking_on, serializeError. intros M.
  destruct (first_serializer e _) as [serializer|].
  - destruct (serializer e) as [customResult|]; [|discriminate].
    rewrite M.
    destruct customResult; try discriminate; intros [= <-]; simpl;
      intros [= <-]; by eexists.
  - destruct e as [cls message stack|cls message stack d].
    + intros [= <-]. discriminate.
    + rewrite M. simpl. intros [= <-]. simpl.
      destruct (details d) as [a|]; [|discriminate].
      destruct (_ <? _)%nat; [|discriminate]. intros [= <-]. by eexists.
Qed.

Lemma get_prop_nonempty {A} (o : list (string * A)) k x :
  get_prop o k = Some x -> (0 <? length o)%nat = true.
Proof. by destruct o. Qed.

(** The masked, sanitized details of an error, read at a key of its [details]
    object: the value is the masked form of what the sanitizer stored, and the
    sanitizer stored it with the [details] object already marked as visited. *)
Lemma masked_details_get h a sens props k v :
  cell_at h a = Obj props ->
  get_prop props k = Some v ->
  is_pollution_key k = false ->
  exists s1 result,
    a ∈ s1
    /\ maskSensitiveFields h (fst (safeSerializeDetails h a ∅ 0)) sens 0 = VObj result
    /\ get_prop result k
       = Some (mask_value 10 h sens k (fst (safe_value 10 h v s1))).
Proof.
  intros C G P. unfold maskSensitiveFields, safeSerializeDetails.
  change (11 - 0)%nat with 11%nat.
  rewrite safeSerializeDetails_at_S, bool_decide_eq_false_2 by set_solver.
  rewrite C. cbn [cell_entries].
  destruct (safe_step_get 10 h props ([], {[a]} ∪ ∅) k v G P) as (s1 & I & H).
  destruct (fold_left (safe_step 10 h) props _) as [result s']. cbn [fst snd] in *.
  rewrite maskSensitiveFields_at_S. cbn [entries_of].
  eexists s1, _. split; [set_solver|]. split; [reflexivity|].
  by apply mask_step_get.
Qed.

Lemma serializeError_reports_details h e options a :
  masking_on options -> no_custom_serializer options e ->
  details_of e = Some a ->
  exists r, serializeError h e options = Returned r
    /\ ed_details r
       = let dv := maskSensitiveFields h (fst (safeSerializeDetails h a ∅ 0))
                     (sensitiveFields (merge_options options)) 0 in
         if (0 <? length (entries_of h dv))%nat then Some dv else None.
Proof.
  unfold masking_on, no_custom_serializer, serializeError. intros M N D.
  rewrite N. destruct e as [|cls message stack d]; [discriminate|].
  simpl in D. unfold serialize. cbn [se_details]. rewrite D, M.
  eexists. split; reflexivity.
Qed.







End Redaction.

(** ** Shared objects *)

Section Sharing.
Import JS Errors ErrorSerializer Spec Examples.

Lemma safe_value_object n h o props s :
  cell_at h o = Obj props ->
  safe_value n h (JRef o) s = safeSerializeDetails_at n h o s.
Proof. intros C. unfold safe_value. by rewrite C. Qed.




End Sharing.

(** ** Pagination input *)

Section Pagination.
Import JS Validators Spec Examples.

(** C7: the page of the input [{ page: Infinity }] comes back as [Infinity],
    whatever the configuration; it is neither finite nor replaced by 1. *)
Theorem validatePaginationInput_page_infinity (l t : option num)
    (config : PaginationConfig) :
  page (validatePaginationInput
          {| in_page := Some PosInf; in_limit := l; in_total := t |} config)
  = PosInf.
Proof. reflexivity. Qed.

Lemma Qle_bool_inject a b : Qle_bool (inject_Z a) (inject_Z b) = (a <=? b)%Z.
Proof.
  destruct (Z.leb_spec a b) as [L|L].
  - apply Qle_bool_iff. by rewrite <- Zle_Qle.
  - destruct (Qle_bool _ _) eqn:E; [|done].
    apply Qle_bool_iff in E. rewrite <- Zle_Qle in E. lia.
Qed.

Lemma Math_max_int a b : Math_max (int a) (int b) = int (Z.max a b).
Proof.
  unfold Math_max, int. rewrite Qle_bool_inject.
  destruct (Z.leb_spec a b); f_equal; f_equal; lia.
Qed.

(** Every page other than [Infinity] is normalized to an integer that is at
    least 1. *)
Lemma validatePaginationInput_page_finite input config :
  in_page input <> Some PosInf ->
  int_from 1 (page (validatePaginationInput input config)).
Proof.
  intros N. unfold validatePaginationInput, int_from. cbn [page].
  destruct (in_page input) as [[| | |q]|]; simpl; try (by exists 1%Z).
  unfold num_or. simpl. destruct (Qeq_bool q 0); simpl.
  - by exists 1%Z.
  - rewrite Qle_bool_inject.
    destruct (Z.leb_spec 1 (Qfloor q)); eexists; (split; [reflexivity | lia]).
Qed.

Lemma Math_min_int a b : Math_min (int a) (int b) = int (Z.min a b).
Proof.
  unfold Math_min, int. rewrite Qle_bool_inject.
  destruct (Z.leb_spec a b); f_equal; f_equal; lia.
Qed.

Lemma clamp_limit (m : Z) (x : num) :
  (1 <= m)%Z -> x <> NaN ->
  int_between 1 m (Math_min (int m) (Math_max (int 1) (Math_floor x))).
Proof.
  intros M N. destruct x as [| | |q]; [done| | |].
  - exists m. split; [reflexivity | lia].
  - exists 1%Z. change (Math_max (int 1) (Math_floor NegInf)) with (int 1).
    rewrite Math_min_int. split; [f_equal|]; lia.
  - change (Math_floor (Fin q)) with (int (Qfloor q)).
    rewrite Math_max_int, Math_min_int. eexists. split; [reflexivity | lia].
Qed.

(** With a maximum that is an integer of at least 1 and a default that is a
    number, the limit is normalized to an integer between 1 and the maximum,
    whatever the input. *)
Lemma validatePaginationInput_limit_clamped input config (m : Z) :
  maxLimit config = int m -> (1 <= m)%Z -> defaultLimit config <> NaN ->
  int_between 1 m (limit (validatePaginationInput input config)).
Proof.
  intros E M D. unfold validatePaginationInput. cbn [limit]. rewrite E.
  apply clamp_limit; [done|]. unfold num_or.
  destruct (num_truthy (Number (in_limit input))) eqn:T; [|done].
  intros N. rewrite N in T. discriminate T.
Qed.

End Pagination.

(** ** Status resolution, worked *)

Section StatusExamples.
Import JS Errors StatusCodeMapper Spec Examples.

Lemma getStatusCode_first_match_wins_witness :
  getStatusCode teapot_mapper (ApiError_new ApiError None "Teapot" (status_only (int 418)))
  = int 418
  /\ getStatusCode teapot_mapper timeout_error = int 504
  /\ getStatusCode teapot_mapper plain_boom = int 500.
Proof.
  split; [|split].
  - destruct (getStatusCode_first_match_wins teapot_mapper
                (ApiError_new ApiError None "Teapot" (status_only (int 418))))
      as (H & _). by apply H.
  - destruct (getStatusCode_first_match_wins teapot_mapper timeout_error)
      as (_ & H & _).
    apply (H (Plain TimeoutError) (int 504) eq_refl).
    exists [(Api ApiError, int 503)], []. split; [reflexivity|].
    split; [|reflexivity]. by repeat constructor.
  - destruct (getStatusCode_first_match_wins teapot_mapper plain_boom)
      as (_ & _ & H).
    assert (no_match plain_boom (customMappings teapot_mapper)) as N
        by (by repeat constructor).
    destruct (H eq_refl N) as [(C & s & F & _)|[_ E]]; [|exact E].
    apply first_mapping_first_match in F. discriminate F.
Defined.

End StatusExamples.
